(** * exec::system_context -- the generic scheduling layer of
    [include/exec/system_context.hpp]

    A shallow embedding of the scheduler handle, the single-work sender and
    its operation state, the bulk sender, its state, its intermediate
    receiver and its operation state, followed by the properties of the
    completion protocol that the layer is specified to have.

    Conventions of the embedding.
    - A pointer to a backend object is an [option]: [None] is [nullptr].
      Dereferencing [nullptr] is [undefined].
    - The generic layer is a set of C++ templates over the receiver type
      [__R], the previous sender [__Previous] and the function [__Fn].  The
      instances are an inductive type each: a receiver is the user's
      (instrumented: it records the signal it is sent) or the bulk
      intermediate receiver; a function [__Fn] is instrumented in the same
      way, records the index and the arguments it is called with, and may
      write to the arguments, which it is handed by reference.
    - The code mutates the heap ([new std::tuple]) and two fields of
      [__bulk_state]; every function of the layer is a computation in the
      state monad [M] over a [world] that holds them, together with the
      trace of what an observer outside the layer can see.
    - The backend behind the abstract interfaces
      ([__detail/__system_context_default_impl.hpp]) is not part of this
      file: it is a parameter, the record [backend].  What a backend does
      when an abstract operation state is started is a list of calls to the
      function pointers it was handed; the calls run when [start] is
      called, one after the other, in the order the backend chose. *)

From stdpp Require Import base option list gmap.
From Stdlib Require Import ZArith Lia.

Local Open Scope Z_scope.

(** ** Values that cross the layer *)

Definition addr := nat.
Bind Scope nat_scope with addr.
Definition ptr := option addr.

(** The pack [__As...] a sender completes with. *)
Definition values := list Z.

(** [std::exception_ptr], and the [void*] the backend passes for it. *)
Definition exception_ptr := Z.
Definition voidptr := Z.

(** [long], the type of the index of the bulk function object (line 233)
    and of the size the backend's [bulk] takes: 64 bits, two's complement.
    [as_long] is the conversion of a value of an integral type to it. *)
Definition LONG_MAX : Z := 2 ^ 63 - 1.

Definition as_long (z : Z) : Z := (z + 2 ^ 63) mod 2 ^ 64 - 2 ^ 63.

(** A user's function [__Fn]: it is known by [fn_id] in the trace; called
    with an index and the arguments, which it gets by reference, it leaves
    [fn_writes] in them. *)
Record user_function := {
  fn_id : nat;
  fn_writes : Z -> values -> values;
}.

(** The three completion signals a receiver can be sent. *)
Inductive completion :=
| value (vs : values)
| stopped
| error (e : exception_ptr).

(** ** Senders *)

(** [system_sender] (lines 91-194).  The backend sender it wraps is the one
    a scheduler's [schedule()] returned: the pointer is modelled by the
    address of that scheduler, [None] when the factory returned [nullptr]. *)
Record system_sender := {
  __sender_impl_ : ptr;
}.

(** [system_bulk_sender<__Previous, __Size, __Fn>] (lines 326-400). *)
Record system_bulk_sender (Previous : Type) := {
  __scheduler_impl_ : ptr;
  __previous_ : Previous;
  __size_ : Z;
  __fun_ : user_function;
}.
Arguments __scheduler_impl_ {Previous}.
Arguments __previous_ {Previous}.
Arguments __size_ {Previous}.
Arguments __fun_ {Previous}.

(** The senders a bulk stage can be chained after.  [just], [just_stopped]
    and [just_error] are stdexec's senders that complete, when started, with
    the one signal they name. *)
#[warnings="-register-all"]
Inductive sender :=
| just (vs : values)
| just_stopped
| just_error (e : exception_ptr)
| schedule_sender (s : system_sender)
| bulk_sender (s : system_bulk_sender sender).

(** ** Receivers *)

(** [__bulk_state<__Previous, __Size, __Fn, __R>] (lines 197-207): the
    sender and the receiver are set once, by the constructor of
    [__bulk_op]; [__arguments_data_] and [__os_] are assigned later and live
    in the [world], under the address of the state. *)
Record __bulk_state (R : Type) := {
  state_addr : addr;
  __snd_ : system_bulk_sender sender;
  __recv_ : R;
}.
Arguments state_addr {R}.
Arguments __snd_ {R}.
Arguments __recv_ {R}.

#[warnings="-register-all"]
Inductive receiver :=
| user_receiver (id : nat)
| __bulk_intermediate_receiver (__state_ : __bulk_state receiver).

(** ** What the backend is handed *)

(** The captureless lambdas that decay to C function pointers. *)
Inductive signal_fn :=
| set_value_lambda      (* lines 151-153 and 246-248 *)
| set_stopped_lambda.   (* lines 154-156 and 249-251 *)

Inductive error_fn :=
| set_error_lambda_op     (* lines 157-161: reinterpret_cast of &__exception *)
| set_error_lambda_bulk.  (* lines 252-256: static_cast of __exception *)

Inductive index_fn :=
| apply_fun_lambda.       (* lines 233-240 *)

(** [__exec_system_receiver]: the receiver's address and three function
    pointers.  The address is modelled by the receiver stored there, which
    does not change between [connect] and the completion. *)
Record __exec_system_receiver := {
  cpp_recv : receiver;
  shim_set_value : signal_fn;
  shim_set_stopped : signal_fn;
  shim_set_error : error_fn;
}.

(** [__exec_system_bulk_function_object]: [&__self.__state_] and the
    function pointer. *)
Record __exec_system_bulk_function_object := {
  fn_state : __bulk_state receiver;
  fn_ptr : index_fn;
}.

(** A backend sender is known to the layer by the request that made it:
    the scheduler that was asked, for [schedule()] or for
    [bulk(size, fn)]. *)
Inductive work :=
| single_work
| bulk_work (size : Z) (fn : __exec_system_bulk_function_object).

Record abstract_sender := {
  as_scheduler : addr;
  as_work : work;
}.

(** [__exec_system_operation_state_interface*]: the sender that was
    connected and the receiver it was connected to. *)
Record abstract_operation_state := {
  aos_sender : abstract_sender;
  aos_receiver : __exec_system_receiver;
}.

(** ** Operation states *)

Inductive operation_state :=
| just_op (c : completion) (r : receiver)
| __op (__snd_ : system_sender) (__recv_ : receiver)
       (__os_ : option abstract_operation_state)
| __bulk_op (__state_ : __bulk_state receiver)
            (__previous_operation_state_ : operation_state).

(** ** The world *)

Inductive backend_call :=
| called_get_scheduler (ctx : addr)
| called_schedule (sched : addr)
| called_bulk (sched : addr) (size : Z)
| called_connect (sched : addr)
| called_start (sched : addr).

Inductive event :=
| signal (r : nat) (c : completion)            (* user receiver [r] is sent [c] *)
| invoke (f : nat) (idx : Z) (args : values)   (* user function [f] is called *)
| allocate (p : addr) (vs : values)            (* [new std::tuple<__As...>] *)
| backend_event (c : backend_call).            (* a call of a virtual method *)

Record world := {
  trace : list event;
  heap : gmap addr values;
  __arguments_data_ : gmap addr addr;
  __os_ : gmap addr abstract_operation_state;
  next_addr : addr;
}.

Definition initial_world : world :=
  {| trace := []; heap := ∅; __arguments_data_ := ∅; __os_ := ∅;
     next_addr := O |}.

(** ** The monad of the layer *)

Inductive outcome (A : Type) :=
| returns (a : A) (w : world)
| undefined.
Arguments returns {A}.
Arguments undefined {A}.

Definition M (A : Type) := world -> outcome A.

Definition ret {A} (a : A) : M A := fun w => returns a w.

Definition bind {A B} (m : M A) (k : A -> M B) : M B :=
  fun w => match m w with
           | returns a w' => k a w'
           | undefined => undefined
           end.

Definition null_dereference {A} : M A := fun _ => undefined.

Notation "x <- m ;; k" := (bind m (fun x => k))
  (at level 100, m at next level, right associativity).
Notation "m ;; k" := (bind m (fun _ => k))
  (at level 100, right associativity).

(** The world after more events, after an allocation, after the
    assignments of the two fields. *)
Definition record (evs : list event) (w : world) : world :=
  {| trace := trace w ++ evs; heap := heap w;
     __arguments_data_ := __arguments_data_ w; __os_ := __os_ w;
     next_addr := next_addr w |}.

Definition bump (w : world) : world :=
  {| trace := trace w; heap := heap w;
     __arguments_data_ := __arguments_data_ w; __os_ := __os_ w;
     next_addr := S (next_addr w) |}.

Definition store (p : addr) (vs : values) (w : world) : world :=
  {| trace := trace w; heap := <[p := vs]> (heap w);
     __arguments_data_ := __arguments_data_ w; __os_ := __os_ w;
     next_addr := next_addr w |}.

Definition with_arguments_data (state p : addr) (w : world) : world :=
  {| trace := trace w; heap := heap w;
     __arguments_data_ := <[state := p]> (__arguments_data_ w);
     __os_ := __os_ w; next_addr := next_addr w |}.

Definition with_os (state : addr) (os : abstract_operation_state)
    (w : world) : world :=
  {| trace := trace w; heap := heap w;
     __arguments_data_ := __arguments_data_ w;
     __os_ := <[state := os]> (__os_ w); next_addr := next_addr w |}.

Definition emit (e : event) : M unit :=
  fun w => returns tt (record [e] w).

(** A fresh address: for a tuple made by [new], for an operation state. *)
Definition fresh : M addr :=
  fun w => returns (next_addr w) (bump w).

(** [new std::tuple<__As...>{__as...}] *)
Definition new_tuple (vs : values) : M addr :=
  p <- fresh ;;
  (fun w => returns tt (store p vs w)) ;;
  emit (allocate p vs) ;;
  ret p.

(** [__state.__arguments_data_ = p] *)
Definition assign_arguments_data (state : addr) (p : addr) : M unit :=
  fun w => returns tt (with_arguments_data state p w).

(** [__state.__os_ = os] *)
Definition assign_os (state : addr) (os : abstract_operation_state) : M unit :=
  fun w => returns tt (with_os state os w).

Definition read_os (state : addr) : M (option abstract_operation_state) :=
  fun w => returns (__os_ w !! state) w.

(** [__state->__arguments_data_], which is dereferenced *)
Definition read_arguments_data (state : addr) : M addr :=
  fun w => match __arguments_data_ w !! state with
           | Some p => returns p w
           | None => undefined
           end.

(** [*static_cast<std::tuple<__As...>*>(p)], read and written through *)
Definition read_tuple (p : addr) : M values :=
  fun w => match heap w !! p with
           | Some vs => returns vs w
           | None => undefined
           end.

Definition write_tuple (p : addr) (vs : values) : M unit :=
  fun w => returns tt (store p vs w).

(** ** The backend *)

(** What a backend does with the function pointers it holds. *)
Inductive backend_action :=
| run_index (idx : Z)              (* calls the bulk function object *)
| complete_value                   (* calls the receiver's set_value pointer *)
| complete_stopped                 (* calls the receiver's set_stopped pointer *)
| complete_error (exception : voidptr).

(** An implementation of the abstract interfaces.  [context_get_scheduler]
    is the scheduler a context implementation hands out; [equals] is the
    scheduler's; [schedule], [bulk] and [connect] return a work object
    ([makes_sender], [makes_operation_state]) or [nullptr]; [on_start] is
    what [start()] of an abstract operation state does; [exception_at] is
    the [std::exception_ptr] stored at an address. *)
Record backend := {
  context_get_scheduler : addr -> ptr;
  equals : addr -> ptr -> bool;
  makes_sender : abstract_sender -> bool;
  makes_operation_state : abstract_sender -> bool;
  on_start : abstract_sender -> list backend_action;
  exception_at : voidptr -> option exception_ptr;
}.

(** ** The layer, over a backend *)

Section Layer.

Variable be : backend.

(** *** Calls of the abstract interfaces *)

(** [__sched->schedule()] *)
Definition scheduler_schedule (sched : addr) : M ptr :=
  emit (backend_event (called_schedule sched)) ;;
  ret (if makes_sender be {| as_scheduler := sched; as_work := single_work |}
       then Some sched else None).

(** [__sched->bulk(size, fn)]; [size] is a [long] *)
Definition scheduler_bulk (sched : addr) (size : Z)
    (fn : __exec_system_bulk_function_object) : M (option abstract_sender) :=
  emit (backend_event (called_bulk sched size)) ;;
  let snd := {| as_scheduler := sched; as_work := bulk_work size fn |} in
  ret (if makes_sender be snd then Some snd else None).

(** [__sender->connect(receiver)]: whether an operation state comes back;
    the one that does is the sender with the receiver. *)
Definition sender_connect (snd : abstract_sender) : M bool :=
  emit (backend_event (called_connect (as_scheduler snd))) ;;
  ret (makes_operation_state be snd).

(** *** The function pointers, and what [start()] of the backend runs

    The lambdas call the customization points [stdexec::set_value],
    [set_stopped] and [set_error] on the receiver type [__R]; they are
    stated over the three functions and instantiated below. *)

Section Shims.

Variable set_value : receiver -> values -> M unit.
Variable set_stopped : receiver -> M unit.
Variable set_error : receiver -> exception_ptr -> M unit.

(** Lines 151-156 and 246-251. *)
Definition call_signal_fn (f : signal_fn) (__cpp_recv : receiver) : M unit :=
  match f with
  | set_value_lambda => set_value __cpp_recv []
  | set_stopped_lambda => set_stopped __cpp_recv
  end.

(** Lines 157-161 read the [void*] itself as the [std::exception_ptr];
    lines 252-256 read the [std::exception_ptr] it points to. *)
Definition call_error_fn (f : error_fn) (__cpp_recv : receiver)
    (__exception : voidptr) : M unit :=
  match f with
  | set_error_lambda_op => set_error __cpp_recv __exception
  | set_error_lambda_bulk =>
      match exception_at be __exception with
      | Some e => set_error __cpp_recv e
      | None => null_dereference
      end
  end.

(** Lines 233-240: [__state->__snd_.__fun_(__idx, __args...)], where
    [__args...] are references to the elements of the tuple that
    [__state->__arguments_data_] points to: the function is called with
    what the tuple holds, and what it writes is in the tuple afterwards. *)
Definition call_index_fn (fn : __exec_system_bulk_function_object)
    (__idx : Z) : M unit :=
  match fn_ptr fn with
  | apply_fun_lambda =>
      let __fun := __fun_ (__snd_ (fn_state fn)) in
      __tuple <- read_arguments_data (state_addr (fn_state fn)) ;;
      __args <- read_tuple __tuple ;;
      emit (invoke (fn_id __fun) __idx __args) ;;
      write_tuple __tuple (fn_writes __fun __idx __args)
  end.

(** One call of the backend; a sender made by [schedule()] holds no
    function object to call, and the index a function object is called
    with is a [long]. *)
Definition perform (os : abstract_operation_state) (a : backend_action)
    : M unit :=
  match a with
  | run_index idx =>
      match as_work (aos_sender os) with
      | bulk_work _ fn => call_index_fn fn (as_long idx)
      | single_work => ret tt
      end
  | complete_value =>
      call_signal_fn (shim_set_value (aos_receiver os))
                     (cpp_recv (aos_receiver os))
  | complete_stopped =>
      call_signal_fn (shim_set_stopped (aos_receiver os))
                     (cpp_recv (aos_receiver os))
  | complete_error exception =>
      call_error_fn (shim_set_error (aos_receiver os))
                    (cpp_recv (aos_receiver os)) exception
  end.

Fixpoint perform_all (os : abstract_operation_state)
    (script : list backend_action) : M unit :=
  match script with
  | [] => ret tt
  | a :: script => perform os a ;; perform_all os script
  end.

(** [__os->start()] *)
Definition os_start (os : abstract_operation_state) : M unit :=
  emit (backend_event (called_start (as_scheduler (aos_sender os)))) ;;
  perform_all os (on_start be (aos_sender os)).

End Shims.

(** The receiver shim of lines 149-161. *)
Definition op_receiver_impl (__recv_ : receiver) : __exec_system_receiver :=
  {| cpp_recv := __recv_;
     shim_set_value := set_value_lambda;
     shim_set_stopped := set_stopped_lambda;
     shim_set_error := set_error_lambda_op |}.

(** The receiver shim of lines 244-256. *)
Definition bulk_receiver_impl (__recv_ : receiver) : __exec_system_receiver :=
  {| cpp_recv := __recv_;
     shim_set_value := set_value_lambda;
     shim_set_stopped := set_stopped_lambda;
     shim_set_error := set_error_lambda_bulk |}.

(** *** The completion functions of a receiver

    The user's receiver records the signal.  For
    [__bulk_intermediate_receiver] these are lines 219-274. *)
Fixpoint set_stopped (r : receiver) : M unit :=
  match r with
  | user_receiver id => emit (signal id stopped)
  | __bulk_intermediate_receiver __state_ => set_stopped (__recv_ __state_)
  end.

Fixpoint set_error (r : receiver) (__ptr : exception_ptr) : M unit :=
  match r with
  | user_receiver id => emit (signal id (error __ptr))
  | __bulk_intermediate_receiver __state_ =>
      set_error (__recv_ __state_) __ptr
  end.

Fixpoint set_value (r : receiver) (__as : values) {struct r} : M unit :=
  match r with
  | user_receiver id => emit (signal id (value __as))
  | __bulk_intermediate_receiver __state_ =>
      (* Heap allocate input data in shared state as needed *)
      __inputs <- new_tuple __as ;;
      assign_arguments_data (state_addr __state_) __inputs ;;
      (* Construct bulk operation with type conversions to use C ABI state *)
      match __scheduler_impl_ (__snd_ __state_) with
      | Some __sched =>
          let __fn := {| fn_state := __state_; fn_ptr := apply_fun_lambda |} in
          __sender <- scheduler_bulk __sched
                        (as_long (__size_ (__snd_ __state_))) __fn ;;
          match __sender with
          | Some __sender =>
              connected <- sender_connect __sender ;;
              if (connected : bool) then
                let os := {| aos_sender := __sender;
                             aos_receiver :=
                               bulk_receiver_impl (__recv_ __state_) |} in
                assign_os (state_addr __state_) os ;;
                (* Start the operation state, which triggers the bulk
                   execution. *)
                os_start set_value set_stopped set_error os
              else null_dereference
          | None => null_dereference
          end
      | None =>
          (* TODO: can't just drop the computation if the scheduler is
             null. *)
          ret tt
      end
  end.

Definition complete (r : receiver) (c : completion) : M unit :=
  match c with
  | value vs => set_value r vs
  | stopped => set_stopped r
  | error e => set_error r e
  end.

(** [__os->start()] of an abstract operation state, the receivers known. *)
Definition abstract_start : abstract_operation_state -> M unit :=
  os_start set_value set_stopped set_error.

(** *** The scheduler handle (lines 53-88) *)

Record system_scheduler := {
  __scheduler_interface_ : ptr;
}.

(** [operator==] (lines 58-60); [None] when [*this] wraps [nullptr]. *)
Definition operator_eq (this __rhs : system_scheduler) : option bool :=
  match __scheduler_interface_ this with
  | Some impl => Some (equals be impl (__scheduler_interface_ __rhs))
  | None => None
  end.

(** [tag_invoke(stdexec::schedule_t, const system_scheduler&)]
    (lines 415-417) *)
Definition schedule (sched : system_scheduler) : M system_sender :=
  match __scheduler_interface_ sched with
  | Some impl =>
      __impl <- scheduler_schedule impl ;;
      ret {| __sender_impl_ := __impl |}
  | None => null_dereference
  end.

(** [tag_invoke(stdexec::bulk_t, ...)] (lines 424-433) *)
Definition bulk (__self : system_scheduler) (__previous : sender)
    (__size : Z) (__fun : user_function) : M (system_bulk_sender sender) :=
  ret {| __scheduler_impl_ := __scheduler_interface_ __self;
         __previous_ := __previous;
         __size_ := __size;
         __fun_ := __fun |}.

(** *** connect (lines 143-165 and 352-362) *)

Fixpoint connect (snd : sender) (__r : receiver) : M operation_state :=
  match snd with
  | just vs => ret (just_op (value vs) __r)
  | just_stopped => ret (just_op stopped __r)
  | just_error e => ret (just_op (error e) __r)
  | schedule_sender __self =>
      match __sender_impl_ __self with
      | Some impl =>
          let __sender := {| as_scheduler := impl; as_work := single_work |} in
          connected <- sender_connect __sender ;;
          ret (__op __self __r
                 (if (connected : bool)
                  then Some {| aos_sender := __sender;
                               aos_receiver := op_receiver_impl __r |}
                  else None))
      | None => null_dereference
      end
  | bulk_sender __self =>
      a <- fresh ;;
      let __state_ := {| state_addr := a; __snd_ := __self; __recv_ := __r |} in
      (* Connect bulk input receiver with the previous operation and store
         in the operating state. *)
      prev <- connect (__previous_ __self)
                      (__bulk_intermediate_receiver __state_) ;;
      ret (__bulk_op __state_ prev)
  end.

(** *** start (lines 127-131 and 309-317) *)

Fixpoint start (o : operation_state) : M unit :=
  match o with
  | just_op c r => complete r c
  | __op _ _ __os_ =>
      match __os_ with
      | Some __os => abstract_start __os
      | None => ret tt
      end
  | __bulk_op __state_ __previous_operation_state_ =>
      (* Tell the undelying implementation to start. *)
      __os <- read_os (state_addr __state_) ;;
      match __os with
      | Some __os => abstract_start __os
      | None => ret tt
      end ;;
      (* Start inner operation state *)
      (* Bulk operation will be started when that completes *)
      start __previous_operation_state_
  end.

(** *** The execution context (lines 30-50, 407-409) *)



End Layer.

(** ** Backends *)

(** The index domain [0, size). *)
Definition index_range (size : Z) : list Z :=
  Z.of_nat <$> seq 0 (Z.to_nat size).

(** Modelled from the spec: the abstract scheduler's [equals], declared in
    [__detail/__system_context_default_impl.hpp] and not part of the
    sources, is "reference/identity equality" (section 3, Scheduler
    Handle): a scheduler equals the one it is. *)
Definition identity_equals (this : addr) (rhs : ptr) : bool :=
  bool_decide (rhs = Some this).

(** The calls that signal a completion. *)
Definition is_completion (a : backend_action) : Prop :=
  match a with
  | run_index _ => False
  | _ => True
  end.

(** Every factory returns a work object, and the [void*] of an error
    points to a [std::exception_ptr]. *)
Record provides_work (be : backend) : Prop := {
  provides_sender : forall snd, makes_sender be snd = true;
  provides_operation_state : forall snd, makes_operation_state be snd = true;
  provides_exception : forall p, is_Some (exception_at be p);
}.

(** Modelled from the spec: the backend contract of section 6 and of
    section 4.3, for the work objects of the backend, which are not part of
    the sources.  A started single work object signals one completion; a
    started bulk work object of size [n >= 0] calls the function object
    once for each index of [0, n), in an order of its choice, and then
    signals one completion. *)
Record honours_contract (be : backend) : Prop := {
  contract_provides : provides_work be;
  contract_single : forall sched,
    exists a, is_completion a /\
      on_start be {| as_scheduler := sched; as_work := single_work |} = [a];
  contract_bulk : forall sched size fn, 0 <= size ->
    exists order a, order ≡ₚ index_range size /\ is_completion a /\
      on_start be {| as_scheduler := sched; as_work := bulk_work size fn |}
      = (run_index <$> order) ++ [a];
}.

(** A backend that runs everything at once on the starting thread, the
    indices in increasing order, and signals [value]; each context owns the
    scheduler at its own address. *)
Definition inline_backend : backend :=
  {| context_get_scheduler := fun ctx => Some ctx;
     equals := identity_equals;
     makes_sender := fun _ => true;
     makes_operation_state := fun _ => true;
     on_start := fun snd =>
       match as_work snd with
       | single_work => [complete_value]
       | bulk_work size _ => (run_index <$> index_range size) ++ [complete_value]
       end;
     exception_at := fun p => Some p |}.

(** A backend whose [connect] returns [nullptr]. *)
Definition unavailable_backend : backend :=
  {| context_get_scheduler := fun ctx => Some ctx;
     equals := identity_equals;
     makes_sender := fun _ => true;
     makes_operation_state := fun _ => false;
     on_start := fun _ => [];
     exception_at := fun p => Some p |}.

(** Connect, then start, in the initial world. *)
Definition run (be : backend) (snd : sender) (r : receiver) : outcome unit :=
  (o <- connect be snd r ;; start be o) initial_world.

(** ** What an observer reads off a trace *)

(** The signals user receiver [r] was sent, in order. *)
Definition signals_of (r : nat) (t : list event) : list completion :=
  omap (fun e => match e with
                 | signal r' c => if decide (r' = r) then Some c else None
                 | _ => None
                 end) t.

(** The calls of user function [f], in order: index and arguments. *)
Definition invocations_of (f : nat) (t : list event) : list (Z * values) :=
  omap (fun e => match e with
                 | invoke f' idx args =>
                     if decide (f' = f) then Some (idx, args) else None
                 | _ => None
                 end) t.

(** The tuples made by [new], in order. *)
Definition allocations_of (t : list event) : list (addr * values) :=
  omap (fun e => match e with
                 | allocate p vs => Some (p, vs)
                 | _ => None
                 end) t.

(** The calls of the backend's virtual methods, in order. *)
Definition backend_calls_of (t : list event) : list backend_call :=
  omap (fun e => match e with
                 | backend_event c => Some c
                 | _ => None
                 end) t.

(** A computation that leaves the world as it found it. *)
Definition pure_construction {A} (m : M A) : Prop :=
  forall w, exists a, m w = returns a w.

(** The operation state of [connect snd r], started in the initial world,
    returns, and [r] has been sent one signal, no more. *)
Definition exactly_one_completion (be : backend) (snd : sender) (r : nat)
    : Prop :=
  exists w c, run be snd (user_receiver r) = returns tt w /\
              signals_of r (trace w) = [c].

(** The completion a receiver is sent when the backend performs [a] through
    a shim whose error pointer is [f]. *)
Definition delivered (be : backend) (f : error_fn) (a : backend_action)
    : completion :=
  match a with
  | complete_stopped => stopped
  | complete_error x =>
      error match f with
            | set_error_lambda_op => x
            | set_error_lambda_bulk => default 0 (exception_at be x)
            end
  | _ => value []
  end.

(** The abstract operation state the value completion of the intermediate
    receiver of [st] makes with scheduler [impl]. *)
Definition bulk_os (impl : addr) (st : __bulk_state receiver)
    : abstract_operation_state :=
  {| aos_sender :=
       {| as_scheduler := impl;
          as_work := bulk_work (as_long (__size_ (__snd_ st)))
                       {| fn_state := st; fn_ptr := apply_fun_lambda |} |};
     aos_receiver := bulk_receiver_impl (__recv_ st) |}.

(** The calls of [f] for the indices [idxs], one after the other, on a
    tuple that holds [vs] at first: each call with what the calls before
    it left in the tuple; and what the tuple holds after them. *)
Fixpoint calls (f : user_function) (idxs : list Z) (vs : values)
    : list (Z * values) :=
  match idxs with
  | [] => []
  | i :: idxs => (i, vs) :: calls f idxs (fn_writes f i vs)
  end.

Fixpoint written (f : user_function) (idxs : list Z) (vs : values) : values :=
  match idxs with
  | [] => vs
  | i :: idxs => written f idxs (fn_writes f i vs)
  end.

Definition invocations (f : user_function) (idxs : list Z) (vs : values)
    : list event :=
  (fun c => invoke (fn_id f) c.1 c.2) <$> calls f idxs vs.



(** The world in which the bulk stage of [st] has been handed to the
    backend and started: the tuple is at the address that was free, both
    fields of the state are assigned. *)
Definition dispatched (impl : addr) (st : __bulk_state receiver)
    (vs : values) (w : world) : world :=
  record [allocate (next_addr w) vs;
          backend_event (called_bulk impl (as_long (__size_ (__snd_ st))));
          backend_event (called_connect impl);
          backend_event (called_start impl)]
    (with_os (state_addr st) (bulk_os impl st)
       (with_arguments_data (state_addr st) (next_addr w)
          (store (next_addr w) vs (bump w)))).

(** The world in which, after that, the function of the stage has been
    called for the indices [idxs]. *)
Definition ran (impl : addr) (st : __bulk_state receiver) (vs : values)
    (idxs : list Z) (w : world) : world :=
  store (next_addr w) (written (__fun_ (__snd_ st)) idxs vs)
    (record (invocations (__fun_ (__snd_ st)) idxs vs)
       (dispatched impl st vs w)).

(** A user's function that only reads its arguments, and one that adds
    one to each of them. *)
Definition recorder (id : nat) : user_function :=
  {| fn_id := id; fn_writes := fun _ vs => vs |}.

Definition incrementer (id : nat) : user_function :=
  {| fn_id := id; fn_writes := fun _ vs => Z.succ <$> vs |}.


(** ** Senders and predicates the properties are stated with *)

Definition scheduled_on (impl : addr) : sender :=
  schedule_sender {| __sender_impl_ := Some impl |}.

Definition bulk_after (impl : addr) (prev : sender) (size : Z)
    (f : user_function) : sender :=
  bulk_sender {| __scheduler_impl_ := Some impl; __previous_ := prev;
                 __size_ := size; __fun_ := f |}.

(** The tuple at [p] has been released. *)
Definition released (p : addr) (w : world) : Prop := heap w !! p = None.

(** Every pointer named in [snd] is there and every size is one the
    backend is given as it is. *)
Fixpoint well_formed (snd : sender) : Prop :=
  match snd with
  | schedule_sender s => is_Some (__sender_impl_ s)
  | bulk_sender s =>
      is_Some (__scheduler_impl_ s) /\ 0 <= __size_ s <= LONG_MAX /\
      well_formed (__previous_ s)
  | _ => True
  end.

(** Whatever [rcv] is sent, the user's receiver [r] is sent one signal. *)
Definition forwards_once (be : backend) (r : nat) (rcv : receiver) : Prop :=
  forall c w, exists w' c',
    complete be rcv c w = returns tt w' /\
    signals_of r (trace w') = signals_of r (trace w) ++ [c'].

(** No state at an address that is still free has its [__os_] assigned. *)
Definition os_unassigned (w : world) : Prop :=
  forall a : addr, (next_addr w <= a)%nat -> __os_ w !! a = None.

(** ** The environment of a bulk sender (lines 364-390) *)

(** [system_bulk_sender::__env]; its field is [__scheduler_impl_] in the
    source, a name the sender's own field has here. *)
Record __env := {
  env_scheduler_impl_ : ptr;
}.

(** [tag_invoke(stdexec::get_env_t, const system_bulk_sender&)]
    (lines 387-390) *)
Definition get_env (__snd : system_bulk_sender sender) : __env :=
  {| env_scheduler_impl_ := __scheduler_impl_ __snd |}.

(** [tag_invoke(stdexec::get_completion_scheduler_t<set_value_t>, ...)] and
    the one for [set_stopped_t] (lines 367-380): the same body. *)
Definition get_completion_scheduler (__self : __env) : system_scheduler :=
  {| __scheduler_interface_ := env_scheduler_impl_ __self |}.

(** ** What a whole run keeps *)

(** The signals the senders declare in [completion_signatures]
    (lines 96-99 and 331-334): [set_value_t()] carries no value. *)
Definition declared (c : completion) : Prop :=
  match c with
  | value vs => vs = []
  | _ => True
  end.

(** The schedulers whose work objects were connected, and those whose
    operation states were started, in order. *)
Definition connected (t : list event) : list addr :=
  omap (fun e => match e with
                 | backend_event (called_connect s) => Some s
                 | _ => None
                 end) t.

Definition started (t : list event) : list addr :=
  omap (fun e => match e with
                 | backend_event (called_start s) => Some s
                 | _ => None
                 end) t.

(** The heap and the states agree with the trace: a state's
    [__arguments_data_] points to a tuple, no tuple lies at an address that
    was not handed out, and every tuple the trace saw allocated is on the
    heap. *)
Record consistent (w : world) : Prop := {
  arguments_live : forall a p : addr,
    __arguments_data_ w !! a = Some p -> is_Some (heap w !! p);
  heap_below : forall p : addr,
    (next_addr w <= p)%nat -> heap w !! p = None;
  allocations_live : forall (p : addr) vs,
    (p, vs) ∈ allocations_of (trace w) -> is_Some (heap w !! p);
}.

(** From [w] to [w']: the trace grew by [evs], no address was taken back,
    and no state lost its [__arguments_data_]. *)
Record follows (w w' : world) (evs : list event) : Prop := {
  follows_trace : trace w' = trace w ++ evs;
  follows_next : (next_addr w <= next_addr w')%nat;
  follows_arguments : forall a : addr,
    is_Some (__arguments_data_ w !! a) ->
    is_Some (__arguments_data_ w' !! a);
}.

(** The backend sender of every [system_sender] in [snd] is there. *)
Fixpoint senders_present (snd : sender) : Prop :=
  match snd with
  | schedule_sender s => is_Some (__sender_impl_ s)
  | bulk_sender s => senders_present (__previous_ s)
  | _ => True
  end.

(** The bulk stages of [snd], and what [connect] asks of the backend. *)
Fixpoint bulk_depth (snd : sender) : nat :=
  match snd with
  | bulk_sender s => S (bulk_depth (__previous_ s))
  | _ => O
  end.

Fixpoint connect_calls (snd : sender) : list event :=
  match snd with
  | schedule_sender s =>
      match __sender_impl_ s with
      | Some impl => [backend_event (called_connect impl)]
      | None => []
      end
  | bulk_sender s => connect_calls (__previous_ s)
  | _ => []
  end.

(** [snd] is one of the senders of this file, not a stdexec one. *)
Definition system_made (snd : sender) : Prop :=
  match snd with
  | schedule_sender _ | bulk_sender _ => True
  | _ => False
  end.

(** A backend whose [bulk] returns the work object and completes it with
    the error at [x], after no index. *)
Definition failing_backend (x : voidptr) (e : option exception_ptr)
    : backend :=
  {| context_get_scheduler := fun ctx => Some ctx;
     equals := identity_equals;
     makes_sender := fun _ => true;
     makes_operation_state := fun _ => true;
     on_start := fun _ => [complete_error x];
     exception_at := fun p => if decide (p = x) then e else None |}.

(** The state the function object of [os] points to has its
    [__arguments_data_]. *)
Definition work_ready (os : abstract_operation_state) (w : world) : Prop :=
  match as_work (aos_sender os) with
  | single_work => True
  | bulk_work _ fn =>
      is_Some (__arguments_data_ w !! state_addr (fn_state fn))
  end.

(** Whatever [rcv] is sent in a consistent world, its completion function
    returns in a consistent world; the backend's [start] calls match its
    [connect] calls; and the user's receiver [r] is sent declared signals
    only, but for the signal [rcv] was sent when [rcv] is a user's
    receiver. *)
Definition completes_well (be : backend) (r : nat) (rcv : receiver) : Prop :=
  forall c w,
    consistent w ->
    exists w' evs,
      complete be rcv c w = returns tt w' /\
      follows w w' evs /\
      consistent w' /\
      started evs = connected evs /\
      forall c', c' ∈ signals_of r evs ->
                 declared c' \/ (c' = c /\ exists id, rcv = user_receiver id).

(** A backend whose [schedule] and [bulk] return [nullptr]. *)
Definition senderless_backend : backend :=
  {| context_get_scheduler := fun ctx => Some ctx;
     equals := identity_equals;
     makes_sender := fun _ => false;
     makes_operation_state := fun _ => false;
     on_start := fun _ => [];
     exception_at := fun p => Some p |}.

(** * Properties *)

(** Induction on the senders, through the previous sender of a bulk
    sender. *)
Section SenderInduction.

Variable P : sender -> Prop.
Hypothesis P_just : forall vs, P (just vs).
Hypothesis P_just_stopped : P just_stopped.
Hypothesis P_just_error : forall e, P (just_error e).
Hypothesis P_schedule : forall s, P (schedule_sender s).
Hypothesis P_bulk : forall sched prev n f,
  P prev ->
  P (bulk_sender {| __scheduler_impl_ := sched; __previous_ := prev;
                    __size_ := n; __fun_ := f |}).

Fixpoint sender_induction (snd : sender) : P snd :=
  match snd with
  | just vs => P_just vs
  | just_stopped => P_just_stopped
  | just_error e => P_just_error e
  | schedule_sender s => P_schedule s
  | bulk_sender s =>
      match s with
      | Build_system_bulk_sender _ sched prev n f =>
          P_bulk sched prev n f (sender_induction prev)
      end
  end.

End SenderInduction.


(** ** The monad and the trace *)

Lemma record_nil w : record [] w = w.
Proof. destruct w; unfold record; simpl. by rewrite app_nil_r. Qed.


Lemma store_same p vs w : heap w !! p = Some vs -> store p vs w = w.
Proof. intros H. destruct w; unfold store; simpl in *. by rewrite insert_id. Qed.

Lemma store_record_store p vs1 vs2 evs1 evs2 w :
  store p vs2 (record evs2 (store p vs1 (record evs1 w)))
  = store p vs2 (record (evs1 ++ evs2) w).
Proof.
  unfold store, record; simpl. by rewrite insert_insert_eq, app_assoc.
Qed.

Lemma bind_returns {A B} (m : M A) (k : A -> M B) w a w' :
  m w = returns a w' -> bind m k w = k a w'.
Proof. unfold bind. by intros ->. Qed.

Lemma signals_of_app r t1 t2 :
  signals_of r (t1 ++ t2) = signals_of r t1 ++ signals_of r t2.
Proof. apply omap_app. Qed.


Lemma signals_of_invocations r f idxs vs :
  signals_of r (invocations f idxs vs) = [].
Proof.
  revert vs. induction idxs as [|i idxs IH]; intros vs; [done|]. apply IH.
Qed.


(** ** Indices and sizes *)

Lemma as_long_small z : - 2 ^ 63 <= z <= LONG_MAX -> as_long z = z.
Proof.
  unfold LONG_MAX, as_long. intros Hz. rewrite Z.mod_small; lia.
Qed.

Lemma as_long_bound z : as_long z <= LONG_MAX.
Proof.
  unfold LONG_MAX, as_long.
  pose proof (Z.mod_pos_bound (z + 2 ^ 63) (2 ^ 64)). lia.
Qed.

Lemma index_range_bounds size i : i ∈ index_range size -> 0 <= i < size.
Proof.
  unfold index_range. intros (n & -> & Hn%elem_of_seq)%list_elem_of_fmap.
  lia.
Qed.

(** The indices of a size the backend was given are [long]s. *)
Lemma as_long_order size (order : list Z) :
  order ≡ₚ index_range (as_long size) -> as_long <$> order = order.
Proof.
  intros Hperm. rewrite <- (list_fmap_id order) at 2.
  apply list_fmap_ext. intros k i Hi. simpl. apply as_long_small.
  assert (Hin : i ∈ index_range (as_long size)).
  { rewrite <- Hperm. by eapply list_elem_of_lookup_2. }
  apply index_range_bounds in Hin. pose proof (as_long_bound size).
  unfold LONG_MAX in *. lia.
Qed.




(** ** What the backend's script does *)

Section Script.

Variable be : backend.

Lemma perform_all_app sv ss se os l1 l2 w :
  perform_all be sv ss se os (l1 ++ l2) w
  = (perform_all be sv ss se os l1 ;; perform_all be sv ss se os l2) w.
Proof.
  revert w. induction l1 as [|a l1 IH]; intros w; simpl.
  - reflexivity.
  - unfold bind in *. destruct (perform be sv ss se os a w); [|done].
    apply IH.
Qed.

(** One per-index call: the function is called with what the tuple of the
    state holds, and the tuple holds what the function wrote. *)
Lemma perform_index sv ss se os size fn p vs i w :
  as_work (aos_sender os) = bulk_work size fn ->
  __arguments_data_ w !! state_addr (fn_state fn) = Some p ->
  heap w !! p = Some vs ->
  let f := __fun_ (__snd_ (fn_state fn)) in
  perform be sv ss se os (run_index i) w
  = returns tt
      (store p (fn_writes f (as_long i) vs)
         (record [invoke (fn_id f) (as_long i) vs] w)).
Proof.
  intros Hwork Hargs Hheap f. unfold perform. rewrite Hwork.
  unfold call_index_fn. destruct (fn_ptr fn).
  unfold bind, read_arguments_data, read_tuple, emit, write_tuple.
  rewrite Hargs. simpl. by rewrite Hheap.
Qed.

(** The per-index calls, one after the other, touch the tuple and the
    trace and nothing else. *)
Lemma perform_all_indices sv ss se os size fn p (order : list Z) :
  as_work (aos_sender os) = bulk_work size fn ->
  let f := __fun_ (__snd_ (fn_state fn)) in
  forall vs w,
    __arguments_data_ w !! state_addr (fn_state fn) = Some p ->
    heap w !! p = Some vs ->
    perform_all be sv ss se os (run_index <$> order) w
    = returns tt
        (store p (written f (as_long <$> order) vs)
           (record (invocations f (as_long <$> order) vs) w)).
Proof.
  intros Hwork f.
  induction order as [|i order IH]; intros vs w Hargs Hheap.
  - simpl. unfold ret, invocations. simpl.
    by rewrite record_nil, store_same.
  - cbn [fmap list_fmap perform_all].
    rewrite (bind_returns _ _ _ _ _
               (perform_index sv ss se os size fn p vs i w Hwork Hargs Hheap)).
    fold f. rewrite (IH (fn_writes f (as_long i) vs)).
    + f_equal. apply store_record_store.
    + done.
    + simpl. apply lookup_insert_eq.
Qed.

(** A completion call of the backend is the completion function of the
    receiver the shim was built for. *)
Lemma perform_completion os a :
  is_completion a ->
  shim_set_value (aos_receiver os) = set_value_lambda ->
  shim_set_stopped (aos_receiver os) = set_stopped_lambda ->
  (forall p, is_Some (exception_at be p)) ->
  perform be (set_value be) set_stopped set_error os a
  = complete be (cpp_recv (aos_receiver os))
      (delivered be (shim_set_error (aos_receiver os)) a).
Proof.
  intros Ha Hv Hs Hex. destruct a as [i| | |x]; simpl in *; try done.
  - by rewrite Hv.
  - by rewrite Hs.
  - unfold call_error_fn. destruct (shim_set_error (aos_receiver os)); [done|].
    destruct (Hex x) as [e ->]. done.
Qed.

End Script.

(** The world in which the backend's [start] has just been called. *)
Lemma dispatched_steps impl st vs w :
  record [backend_event (called_start impl)]
    (with_os (state_addr st) (bulk_os impl st)
       (record [backend_event (called_connect impl)]
          (record [backend_event
                     (called_bulk impl (as_long (__size_ (__snd_ st))))]
             (with_arguments_data (state_addr st) (next_addr w)
                (record [allocate (next_addr w) vs]
                   (store (next_addr w) vs (bump w)))))))
  = dispatched impl st vs w.
Proof.
  unfold dispatched, bulk_os, record, with_os, with_arguments_data, store,
    bump. simpl. f_equal. by rewrite <- !app_assoc.
Qed.

(** ** The value completion of the intermediate receiver *)

Section Dispatch.

Variable be : backend.
Hypothesis contract : honours_contract be.

(** With a scheduler and a backend that honours its contract, the value
    completion allocates the tuple, assigns both fields, makes the backend
    run the indices in the backend's order, and ends as the completion the
    backend chose, sent to the receiver of the state. *)
Lemma set_value_dispatch st impl :
  __scheduler_impl_ (__snd_ st) = Some impl ->
  0 <= as_long (__size_ (__snd_ st)) ->
  exists order a,
    order ≡ₚ index_range (as_long (__size_ (__snd_ st))) /\ is_completion a /\
    forall vs w,
      set_value be (__bulk_intermediate_receiver st) vs w
      = complete be (__recv_ st) (delivered be set_error_lambda_bulk a)
          (ran impl st vs order w).
Proof.
  intros Hsched Hsize.
  destruct (contract_bulk be contract impl (as_long (__size_ (__snd_ st)))
              {| fn_state := st; fn_ptr := apply_fun_lambda |} Hsize)
    as (order & a & Hperm & Ha & Hscript).
  exists order, a. split; [done|]. split; [done|]. intros vs w.
  simpl. rewrite Hsched.
  unfold new_tuple, fresh, emit, assign_arguments_data, scheduler_bulk,
    sender_connect, assign_os, os_start, emit, ret, bind. simpl.
  rewrite (provides_sender be (contract_provides be contract)),
    (provides_operation_state be (contract_provides be contract)).
  simpl. rewrite Hscript. fold (bulk_os impl st).
  rewrite (dispatched_steps impl st vs w).
  rewrite perform_all_app. unfold bind.
  erewrite perform_all_indices; [|reflexivity|..].
  2: { simpl. apply lookup_insert_eq. }
  2: { simpl. apply lookup_insert_eq. }
  simpl. unfold bind.
  rewrite perform_completion; [|done|done|done|apply contract].
  simpl. rewrite (as_long_order _ _ Hperm). fold (ran impl st vs order w).
  unfold ret. by destruct (complete be _ _ _) as [[] ?|].
Qed.

End Dispatch.

(** ** A bulk stage whose receiver is the user's *)





Section UserStage.

Variable be : backend.
Hypothesis provides : provides_work be.

Variables (a : addr) (snd : system_bulk_sender sender) (r : nat).

Let st : __bulk_state receiver :=
  {| state_addr := a; __snd_ := snd; __recv_ := user_receiver r |}.



End UserStage.

(** ** The backends of this file *)

Lemma inline_backend_provides_work : provides_work inline_backend.
Proof. split; intros; simpl; eauto. Qed.

Lemma inline_backend_honours_contract : honours_contract inline_backend.
Proof.
  split.
  - apply inline_backend_provides_work.
  - intros sched. exists complete_value. by split.
  - intros sched size fn _. exists (index_range size), complete_value.
    by split; [|split].
Qed.

(** ** The scenarios of the specification, on the inline backend *)

(** Scenario A: one unit of work; one value, nothing else. *)
Example scenario_A :
  exists w, run inline_backend (scheduled_on 1) (user_receiver 0)
            = returns tt w /\
            signals_of 0 (trace w) = [value []] /\
            backend_calls_of (trace w) = [called_connect 1; called_start 1].
Proof. eexists. by vm_compute. Qed.

(** Scenario B: [7], then a bulk stage of size 5. *)
Example scenario_B :
  exists w, run inline_backend (bulk_after 1 (just [7]) 5 (recorder 0)) (user_receiver 0)
            = returns tt w /\
            invocations_of 0 (trace w)
            = [(0, [7]); (1, [7]); (2, [7]); (3, [7]); (4, [7])] /\
            signals_of 0 (trace w) = [value []].
Proof. eexists. by vm_compute. Qed.

(** Scenario C: the prior stage is stopped. *)
Example scenario_C :
  exists w, run inline_backend (bulk_after 1 just_stopped 5 (recorder 0))
              (user_receiver 0) = returns tt w /\
            invocations_of 0 (trace w) = [] /\
            signals_of 0 (trace w) = [stopped].
Proof. eexists. by vm_compute. Qed.

(** Scenario D: the prior stage fails with the payload 42. *)
Example scenario_D :
  exists w, run inline_backend (bulk_after 1 (just_error 42) 5 (recorder 0))
              (user_receiver 0) = returns tt w /\
            invocations_of 0 (trace w) = [] /\
            signals_of 0 (trace w) = [error 42].
Proof. eexists. by vm_compute. Qed.

(** The function of the stage adds one to the value it is handed: the
    three calls are handed 7, 8 and 9. *)
Example scenario_writing_function :
  exists w, run inline_backend (bulk_after 1 (just [7]) 3 (incrementer 0))
              (user_receiver 0) = returns tt w /\
            invocations_of 0 (trace w) = [(0, [7]); (1, [8]); (2, [9])] /\
            signals_of 0 (trace w) = [value []].
Proof. eexists. by vm_compute. Qed.

(** A bulk stage after a bulk stage after a unit of work: the inner stage
    hands no values to the outer one. *)
Example scenario_nested :
  exists w, run inline_backend
              (bulk_after 1 (bulk_after 1 (just [7; 8]) 2 (recorder 5)) 2
                 (recorder 0))
              (user_receiver 0) = returns tt w /\
            invocations_of 5 (trace w) = [(0, [7; 8]); (1, [7; 8])] /\
            invocations_of 0 (trace w) = [(0, []); (1, [])] /\
            signals_of 0 (trace w) = [value []].
Proof. eexists. by vm_compute. Qed.

(** The scheduler pointer of the bulk stage is null: the tuple is made,
    nothing runs, and the receiver is sent nothing. *)
Example scenario_null_scheduler :
  exists w, run inline_backend
              (bulk_sender {| __scheduler_impl_ := None;
                              __previous_ := just [7];
                              __size_ := 5; __fun_ := recorder 0 |})
              (user_receiver 0) = returns tt w /\
            allocations_of (trace w) = [(1%nat, [7])] /\
            backend_calls_of (trace w) = [] /\
            invocations_of 0 (trace w) = [] /\
            signals_of 0 (trace w) = [].
Proof. eexists. by vm_compute. Qed.

(** * The claims *)

(** ** Bulk fan-out *)




(** ** The argument tuple *)








(** C10: with no scheduler, the value completion of the intermediate
    receiver still allocates the tuple and stores it in the state, before
    it looks at the scheduler; then it returns: the backend is not called,
    no receiver is sent a signal, and the tuple stays on the heap. *)
Theorem null_scheduler_allocates_and_drops be a prev n f recv vs w :
  let st := {| state_addr := a;
               __snd_ := {| __scheduler_impl_ := None; __previous_ := prev;
                            __size_ := n; __fun_ := f |};
               __recv_ := recv |} in
  let w' := with_arguments_data a (next_addr w)
              (record [allocate (next_addr w) vs]
                 (store (next_addr w) vs (bump w))) in
  set_value be (__bulk_intermediate_receiver st) vs w = returns tt w' /\
  trace w' = trace w ++ [allocate (next_addr w) vs] /\
  __arguments_data_ w' !! a = Some (next_addr w) /\
  __os_ w' = __os_ w /\
  ~ released (next_addr w) w'.
Proof.
  intros st w'. split; [reflexivity|]. split; [reflexivity|].
  split; [apply lookup_insert_eq|]. split; [reflexivity|].
  unfold released. simpl. by rewrite lookup_insert_eq.
Qed.

(** ** Short circuit *)

(** C3 (P3): when the prior stage signals stopped or an error to the
    intermediate receiver of a bulk stage, the receiver of the stage is
    sent that signal, the error with the same payload, and nothing else
    happens: no call of the user's function, no allocation, no call of the
    backend.  So it is for the operation state of a bulk sender after
    [just_stopped] or [just_error], whatever the backend and the
    scheduler. *)
Theorem bulk_short_circuit be st e sched n f r w :
  set_stopped (__bulk_intermediate_receiver st) w = set_stopped (__recv_ st) w /\
  set_error (__bulk_intermediate_receiver st) e w
    = set_error (__recv_ st) e w /\
  set_stopped (user_receiver r) w = returns tt (record [signal r stopped] w) /\
  set_error (user_receiver r) e w = returns tt (record [signal r (error e)] w) /\
  run be (bulk_sender {| __scheduler_impl_ := sched;
                         __previous_ := just_stopped;
                         __size_ := n; __fun_ := f |}) (user_receiver r)
    = returns tt (record [signal r stopped] (bump initial_world)) /\
  run be (bulk_sender {| __scheduler_impl_ := sched;
                         __previous_ := just_error e;
                         __size_ := n; __fun_ := f |}) (user_receiver r)
    = returns tt (record [signal r (error e)] (bump initial_world)).
Proof. repeat split. Qed.

(** ** The single-work operation state *)

(** C5: an operation state of [system_sender] whose abstract operation
    state is null: [start] returns and leaves the world as it is; when the
    backend's [connect] returned [nullptr], connecting and starting calls
    [connect] of the backend and nothing else, and no receiver is sent a
    signal. *)
Theorem start_without_operation_state be impl snd recv w :
  makes_operation_state be {| as_scheduler := impl; as_work := single_work |}
    = false ->
  start be (__op snd recv None) w = returns tt w /\
  (o <- connect be (schedule_sender {| __sender_impl_ := Some impl |}) recv ;;
   start be o) w
  = returns tt (record [backend_event (called_connect impl)] w).
Proof.
  intros Hnull. split; [reflexivity|].
  simpl. unfold bind, sender_connect, bind, emit, ret. simpl.
  by rewrite Hnull.
Qed.

Lemma start_without_operation_state_witness :
  start unavailable_backend
    (__op {| __sender_impl_ := Some 1%nat |} (user_receiver 9) None)
    initial_world
  = returns tt initial_world /\
  (o <- connect unavailable_backend
          (schedule_sender {| __sender_impl_ := Some 1%nat |})
          (user_receiver 9) ;;
   start unavailable_backend o) initial_world
  = returns tt (record [backend_event (called_connect 1%nat)] initial_world).
Proof.
  apply (start_without_operation_state unavailable_backend 1%nat
           {| __sender_impl_ := Some 1%nat |} (user_receiver 9)
           initial_world).
  reflexivity.
Defined.

(** ** Construction *)

(** C4, as the specification states it, fails for [schedule]: it calls the
    backend. *)
Lemma schedule_pure_counterexample :
  ~ pure_construction
      (schedule inline_backend {| __scheduler_interface_ := Some 1%nat |}).
Proof.
  intros Hpure. destruct (Hpure initial_world) as [s Hs].
  vm_compute in Hs. discriminate Hs.
Qed.

(** C4, amended: [bulk] is pure construction; [schedule] calls
    [schedule()] of the backend's scheduler, once, for the sender it wraps,
    and does nothing else: no [connect] and no [start] of the backend, no
    allocation, no signal. *)
Theorem construction_effects be impl __self __previous __size __fun w :
  pure_construction (bulk __self __previous __size __fun) /\
  schedule be {| __scheduler_interface_ := Some impl |} w
  = returns
      {| __sender_impl_ :=
           if makes_sender be {| as_scheduler := impl; as_work := single_work |}
           then Some impl else None |}
      (record [backend_event (called_schedule impl)] w).
Proof.
  split; [|reflexivity]. intros w1. eexists. reflexivity.
Qed.

(** ** Equality of scheduler handles *)



(** ** Exactly one completion *)

(** C1, as the specification states it, fails: the backend's [connect]
    returned no operation state, [start] does nothing, and the receiver is
    sent no signal. *)
Lemma exactly_one_completion_counterexample :
  ~ exactly_one_completion unavailable_backend
      (schedule_sender {| __sender_impl_ := Some 1%nat |}) 9.
Proof.
  intros (w & c & Hrun & Hsig). vm_compute in Hrun.
  injection Hrun as <-. discriminate Hsig.
Qed.

Section ExactlyOnce.

Variable be : backend.
Hypothesis contract : honours_contract be.
Variable r : nat.

Lemma forwards_once_user : forwards_once be r (user_receiver r).
Proof.
  intros c w. exists (record [signal r c] w), c. split.
  - by destruct c.
  - simpl. rewrite signals_of_app. simpl. by rewrite decide_True.
Qed.


Lemma signals_of_ran impl st vs order w :
  signals_of r (trace (ran impl st vs order w)) = signals_of r (trace w).
Proof.
  simpl. rewrite !signals_of_app. simpl.
  by rewrite signals_of_invocations, !app_nil_r.
Qed.

Lemma forwards_once_intermediate st :
  is_Some (__scheduler_impl_ (__snd_ st)) ->
  0 <= __size_ (__snd_ st) <= LONG_MAX ->
  forwards_once be r (__recv_ st) ->
  forwards_once be r (__bulk_intermediate_receiver st).
Proof.
  intros [impl Hsched] Hsize Hrecv c w. destruct c as [vs| |e].
  - assert (Hlong : 0 <= as_long (__size_ (__snd_ st))).
    { rewrite as_long_small; unfold LONG_MAX in *; lia. }
    destruct (set_value_dispatch be contract st impl Hsched Hlong)
      as (order & b & _ & _ & Hdispatch).
    destruct (Hrecv (delivered be set_error_lambda_bulk b)
                (ran impl st vs order w)) as (w' & c' & Hw' & Hsig).
    exists w', c'. split.
    + unfold complete at 1. by rewrite Hdispatch.
    + by rewrite Hsig, signals_of_ran.
  - apply (Hrecv stopped w).
  - apply (Hrecv (error e) w).
Qed.

(** Connecting assigns no [__os_], takes addresses only, and sends no
    signal; starting what was connected sends one. *)
Lemma connect_start_once snd :
  well_formed snd ->
  forall rcv w,
    forwards_once be r rcv ->
    os_unassigned w ->
    exists o w1 w2 c,
      connect be snd rcv w = returns o w1 /\
      __os_ w1 = __os_ w /\
      (next_addr w <= next_addr w1)%nat /\
      start be o w1 = returns tt w2 /\
      signals_of r (trace w2) = signals_of r (trace w) ++ [c].
Proof.
  induction snd as [vs| |e|s|sched prev n f IH] using sender_induction;
    intros Hwf rcv w Hrcv Hos.
  - destruct (Hrcv (value vs) w) as (w2 & c & Hw2 & Hsig).
    by exists (just_op (value vs) rcv), w, w2, c.
  - destruct (Hrcv stopped w) as (w2 & c & Hw2 & Hsig).
    by exists (just_op stopped rcv), w, w2, c.
  - destruct (Hrcv (error e) w) as (w2 & c & Hw2 & Hsig).
    by exists (just_op (error e) rcv), w, w2, c.
  - destruct s as [impl]. destruct Hwf as [i Hi]. simpl in Hi. subst impl.
    destruct (contract_single be contract i) as (b & Hb & Hscript).
    set (snd0 := {| as_scheduler := i; as_work := single_work |}) in *.
    set (os := {| aos_sender := snd0; aos_receiver := op_receiver_impl rcv |}).
    set (w1 := record [backend_event (called_connect i)] w).
    destruct (Hrcv (delivered be set_error_lambda_op b)
                (record [backend_event (called_start i)] w1))
      as (w2 & c & Hw2 & Hsig).
    exists (__op {| __sender_impl_ := Some i |} rcv (Some os)), w1, w2, c.
    split; [|split; [done|split; [done|split]]].
    + simpl. unfold bind, sender_connect, bind, emit, ret. simpl.
      by rewrite (provides_operation_state be (contract_provides be contract)).
    + simpl. unfold abstract_start, os_start, bind, emit. simpl.
      fold snd0. rewrite Hscript. simpl. unfold bind.
      rewrite perform_completion; [|done|done|done|apply contract].
      simpl. fold w1. rewrite Hw2. done.
    + rewrite Hsig. simpl. by rewrite !signals_of_app, !app_nil_r.
  - destruct Hwf as (Hsched & Hsize & Hprev). simpl in Hsched, Hsize, Hprev.
    set (s := {| __scheduler_impl_ := sched; __previous_ := prev;
                 __size_ := n; __fun_ := f |}).
    set (st := {| state_addr := next_addr w; __snd_ := s; __recv_ := rcv |}).
    destruct (IH Hprev (__bulk_intermediate_receiver st) (bump w))
      as (o & w1 & w2 & c & Hconnect & Hos1 & Hnext & Hstart & Hsig).
    { by apply forwards_once_intermediate. }
    { intros a Ha. apply Hos. simpl in Ha. lia. }
    exists (__bulk_op st o), w1, w2, c.
    split; [|split; [done|split; [simpl in Hnext; lia|split; [|done]]]].
    + simpl. unfold bind, fresh. fold s st. by rewrite Hconnect.
    + pose proof (Hos (next_addr w) (le_n _)) as Hnone.
      cbn [start]. unfold bind, read_os. cbn [state_addr st].
      rewrite Hos1. cbn [bump __os_]. rewrite Hnone. exact Hstart.
Qed.

End ExactlyOnce.

(** C1 (I1, P1), amended: the operation state of a sender in which every
    scheduler and every backend sender is there and every size is between
    0 and [LONG_MAX], connected to the user's receiver over a backend that
    returns its work objects and honours its contract, and then started:
    the receiver is sent exactly one of value, stopped and error, once. *)
Theorem exactly_one_completion_when_available be snd r :
  honours_contract be ->
  well_formed snd ->
  exactly_one_completion be snd r.
Proof.
  intros contract Hwf.
  destruct (connect_start_once be contract r snd Hwf (user_receiver r)
              initial_world (forwards_once_user be r))
    as (o & w1 & w2 & c & Hconnect & _ & _ & Hstart & Hsig).
  { intros a _. apply lookup_empty. }
  exists w2, c. split; [|done].
  unfold run, bind. by rewrite Hconnect.
Qed.

Lemma exactly_one_completion_when_available_witness :
  exactly_one_completion inline_backend
    (bulk_sender
       {| __scheduler_impl_ := Some 1%nat;
          __previous_ := schedule_sender {| __sender_impl_ := Some 1%nat |};
          __size_ := 3; __fun_ := incrementer 0 |}) 9.
Proof.
  apply exactly_one_completion_when_available.
  - apply inline_backend_honours_contract.
  - simpl. split; [by eexists|]. split; [unfold LONG_MAX; lia|by eexists].
Defined.

(** * Further properties of the layer *)

(** ** connect *)

(** X1: [connect] starts nothing.  Whatever the backend and the receiver,
    connecting a sender whose backend senders are there returns an
    operation state; the heap and the fields of the states are as before;
    the trace has grown by the one [connect] call of the backend for the
    innermost [system_sender], if there is one: no signal, no call of a
    user function, no allocation, no [start]; one address is taken for
    each bulk stage. *)
Theorem connect_is_lazy be snd rcv w :
  senders_present snd ->
  exists o,
    connect be snd rcv w
    = returns o
        {| trace := trace w ++ connect_calls snd;
           heap := heap w;
           __arguments_data_ := __arguments_data_ w;
           __os_ := __os_ w;
           next_addr := next_addr w + bulk_depth snd |}.
Proof.
  revert rcv w.
  induction snd as [vs| |e|s|sched prev n f IH] using sender_induction;
    intros rcv w Hpresent.
  - eexists. simpl. unfold ret. destruct w; simpl.
    by rewrite app_nil_r, Nat.add_0_r.
  - eexists. simpl. unfold ret. destruct w; simpl.
    by rewrite app_nil_r, Nat.add_0_r.
  - eexists. simpl. unfold ret. destruct w; simpl.
    by rewrite app_nil_r, Nat.add_0_r.
  - destruct s as [impl]. destruct Hpresent as [i Hi]. simpl in Hi.
    subst impl. eexists. simpl.
    unfold bind, sender_connect, bind, emit, ret, record. simpl.
    by rewrite Nat.add_0_r.
  - simpl in Hpresent.
    set (st := {| state_addr := next_addr w;
                  __snd_ := {| __scheduler_impl_ := sched;
                               __previous_ := prev; __size_ := n;
                               __fun_ := f |};
                  __recv_ := rcv |}).
    destruct (IH (__bulk_intermediate_receiver st) (bump w) Hpresent)
      as [o Ho].
    exists (__bulk_op st o). simpl. unfold bind, fresh. fold st.
    rewrite Ho. unfold ret. simpl. f_equal. f_equal. lia.
Qed.

Lemma connect_is_lazy_witness :
  exists o,
    connect inline_backend (bulk_after 1 (scheduled_on 2) 3 (recorder 0))
      (user_receiver 9) initial_world
    = returns o
        {| trace := trace initial_world
                    ++ connect_calls (bulk_after 1 (scheduled_on 2) 3 (recorder 0));
           heap := heap initial_world;
           __arguments_data_ := __arguments_data_ initial_world;
           __os_ := __os_ initial_world;
           next_addr := next_addr initial_world
                        + bulk_depth (bulk_after 1 (scheduled_on 2) 3 (recorder 0)) |}.
Proof.
  apply (connect_is_lazy inline_backend (bulk_after 1 (scheduled_on 2) 3 (recorder 0))
           (user_receiver 9) initial_world).
  simpl. by eexists.
Defined.

(** ** Work objects the bulk stage does not check *)

(** X2: on the value path of a bulk stage with a scheduler, the sender
    that [bulk()] returns and the operation state that [connect()] returns
    are used unchecked (lines 242-258): when the backend returns [nullptr]
    for either, the value completion dereferences it, where [start] of the
    single-work operation state would have done nothing. *)
Theorem bulk_stage_null_work_object be a snd impl rcv vs w :
  let st := {| state_addr := a; __snd_ := snd; __recv_ := rcv |} in
  let work := {| as_scheduler := impl;
                 as_work := bulk_work (as_long (__size_ snd))
                              {| fn_state := st;
                                 fn_ptr := apply_fun_lambda |} |} in
  __scheduler_impl_ snd = Some impl ->
  makes_sender be work = false \/ makes_operation_state be work = false ->
  set_value be (__bulk_intermediate_receiver st) vs w = undefined.
Proof.
  intros st work Hsched Hnull. simpl. rewrite Hsched.
  unfold new_tuple, fresh, emit, assign_arguments_data, scheduler_bulk,
    sender_connect, emit, ret, bind, null_dereference. simpl.
  fold st. fold work.
  destruct (makes_sender be work) eqn:Hsender; [|done]. simpl.
  destruct Hnull as [Hnull|Hnull]; [done|]. by rewrite Hnull.
Qed.

Lemma bulk_stage_null_work_object_witness :
  set_value unavailable_backend
    (__bulk_intermediate_receiver
       {| state_addr := 0;
          __snd_ := {| __scheduler_impl_ := Some 1%nat;
                       __previous_ := just [7]; __size_ := 3;
                       __fun_ := recorder 0 |};
          __recv_ := user_receiver 9 |})
    [7] initial_world = undefined.
Proof.
  apply (bulk_stage_null_work_object unavailable_backend 0
           {| __scheduler_impl_ := Some 1%nat; __previous_ := just [7];
              __size_ := 3; __fun_ := recorder 0 |} 1 (user_receiver 9) [7]
           initial_world).
  - reflexivity.
  - right. reflexivity.
Defined.

(** ** The completion scheduler of a bulk sender *)

(** X3: the completion scheduler that the environment of a bulk sender
    names is the scheduler the sender was made on by [bulk], for
    [set_value_t] and for [set_stopped_t] alike; so [operator==] finds it
    equal to that scheduler whenever the scheduler equals itself. *)
Theorem bulk_completion_scheduler be __self __previous __size __fun w s w' :
  bulk __self __previous __size __fun w = returns s w' ->
  get_completion_scheduler (get_env s) = __self /\
  operator_eq be (get_completion_scheduler (get_env s)) __self
  = operator_eq be __self __self.
Proof.
  intros Hbulk. unfold bulk, ret in Hbulk. injection Hbulk as <- _.
  destruct __self as [impl]. by split.
Qed.

Lemma bulk_completion_scheduler_witness :
  get_completion_scheduler
    (get_env {| __scheduler_impl_ := Some 1%nat; __previous_ := just [7];
                __size_ := 3; __fun_ := recorder 0 |})
  = {| __scheduler_interface_ := Some 1%nat |} /\
  operator_eq inline_backend
    (get_completion_scheduler
       (get_env {| __scheduler_impl_ := Some 1%nat; __previous_ := just [7];
                   __size_ := 3; __fun_ := recorder 0 |}))
    {| __scheduler_interface_ := Some 1%nat |}
  = operator_eq inline_backend {| __scheduler_interface_ := Some 1%nat |}
      {| __scheduler_interface_ := Some 1%nat |}.
Proof.
  apply (bulk_completion_scheduler inline_backend
           {| __scheduler_interface_ := Some 1%nat |} (just [7]) 3
           (recorder 0)
           initial_world _ initial_world).
  reflexivity.
Defined.

(** ** The payload of an error of the backend *)

(** X4: the two receiver shims read the [void*] of an error differently.
    When a backend that returns its work objects completes with the error
    [x]: the receiver of a single-work operation state is sent [x] itself
    as the payload (lines 157-161); the receiver of a bulk stage is sent
    the [std::exception_ptr] that [x] points to (lines 252-256), after no
    call of the user's function, and when [x] points to none the shim
    dereferences it all the same. *)
Theorem error_payload_by_path be impl r x :
  (forall snd, makes_sender be snd = true) ->
  (forall snd, makes_operation_state be snd = true) ->
  (forall snd, on_start be snd = [complete_error x]) ->
  (exists w, run be (scheduled_on impl) (user_receiver r) = returns tt w /\
             signals_of r (trace w) = [error x]) /\
  (forall vs n f e,
     exception_at be x = Some e ->
     exists w, run be (bulk_after impl (just vs) n f) (user_receiver r)
               = returns tt w /\
               signals_of r (trace w) = [error e] /\
               invocations_of (fn_id f) (trace w) = []) /\
  (forall vs n f,
     exception_at be x = None ->
     run be (bulk_after impl (just vs) n f) (user_receiver r) = undefined).
Proof.
  intros Hsender Hos Hscript.
  assert (Hvalue : forall vs n f w,
    set_value be
      (__bulk_intermediate_receiver
         {| state_addr := next_addr w;
            __snd_ := {| __scheduler_impl_ := Some impl;
                         __previous_ := just vs; __size_ := n; __fun_ := f |};
            __recv_ := user_receiver r |}) vs (bump w)
    = match exception_at be x with
      | Some e =>
          returns tt
            (record [signal r (error e)]
               (dispatched impl
                  {| state_addr := next_addr w;
                     __snd_ := {| __scheduler_impl_ := Some impl;
                                  __previous_ := just vs; __size_ := n;
                                  __fun_ := f |};
                     __recv_ := user_receiver r |} vs (bump w)))
      | None => undefined
      end).
  { intros vs n f w. simpl.
    unfold new_tuple, fresh, emit, assign_arguments_data, scheduler_bulk,
      sender_connect, assign_os, os_start, emit, ret, bind. simpl.
    rewrite Hsender, Hos. simpl. rewrite Hscript. simpl.
    unfold bind, null_dereference. destruct (exception_at be x); [|done].
    simpl. unfold emit, ret, dispatched, bulk_os, record, with_os,
      with_arguments_data, store, bump. simpl.
    by rewrite <- !app_assoc. }
  split; [|split].
  - eexists. split.
    + unfold run, scheduled_on. simpl.
      unfold bind, sender_connect, bind, emit, ret. simpl. rewrite Hos.
      unfold abstract_start, os_start, bind, emit. simpl. rewrite Hscript.
      simpl. unfold bind, emit, ret. simpl. reflexivity.
    + simpl. by rewrite decide_True.
  - intros vs n f e He.
    pose proof (Hvalue vs n f initial_world) as Hv. rewrite He in Hv.
    eexists. split; [|split].
    + exact Hv.
    + simpl. by rewrite decide_True.
    + reflexivity.
  - intros vs n f He.
    pose proof (Hvalue vs n f initial_world) as Hv. rewrite He in Hv.
    exact Hv.
Qed.

Lemma error_payload_by_path_witness :
  let be := failing_backend 5 (Some 6) in
  (exists w, run be (scheduled_on 1) (user_receiver 9) = returns tt w /\
             signals_of 9 (trace w) = [error 5]) /\
  (forall vs n f e,
     exception_at be 5 = Some e ->
     exists w, run be (bulk_after 1 (just vs) n f) (user_receiver 9)
               = returns tt w /\
               signals_of 9 (trace w) = [error e] /\
               invocations_of (fn_id f) (trace w) = []) /\
  (forall vs n f,
     exception_at be 5 = None ->
     run be (bulk_after 1 (just vs) n f) (user_receiver 9) = undefined).
Proof.
  apply (error_payload_by_path (failing_backend 5 (Some 6)) 1 9 5);
    reflexivity.
Defined.

(** ** Whole runs, whatever the backend calls *)

(** Induction on the receivers, through the receiver of the state of an
    intermediate receiver. *)
Section ReceiverInduction.

Variable P : receiver -> Prop.
Hypothesis P_user : forall id, P (user_receiver id).
Hypothesis P_intermediate : forall a snd rcv,
  P rcv ->
  P (__bulk_intermediate_receiver
       {| state_addr := a; __snd_ := snd; __recv_ := rcv |}).

Fixpoint receiver_induction (rcv : receiver) : P rcv :=
  match rcv with
  | user_receiver id => P_user id
  | __bulk_intermediate_receiver st =>
      match st with
      | Build___bulk_state _ a snd rcv0 =>
          P_intermediate a snd rcv0 (receiver_induction rcv0)
      end
  end.

End ReceiverInduction.

Lemma connected_app t1 t2 : connected (t1 ++ t2) = connected t1 ++ connected t2.
Proof. apply omap_app. Qed.

Lemma started_app t1 t2 : started (t1 ++ t2) = started t1 ++ started t2.
Proof. apply omap_app. Qed.

Lemma allocations_of_app t1 t2 :
  allocations_of (t1 ++ t2) = allocations_of t1 ++ allocations_of t2.
Proof. apply omap_app. Qed.

Lemma declared_delivered be f a : declared (delivered be f a).
Proof. by destruct a. Qed.

(** *** Consistent worlds *)

Lemma consistent_initial : consistent initial_world.
Proof.
  split.
  - intros a p H. cbn [initial_world __arguments_data_] in H.
    by rewrite lookup_empty in H.
  - intros p _. apply lookup_empty.
  - intros p vs H. by apply elem_of_nil in H.
Qed.

Lemma consistent_record evs w :
  allocations_of evs = [] ->
  consistent w ->
  consistent (record evs w).
Proof.
  intros Hevs [Hargs Hbelow Hlive]. split; simpl; [done|done|].
  intros p vs. rewrite allocations_of_app, Hevs, app_nil_r. apply Hlive.
Qed.

Lemma consistent_bump w : consistent w -> consistent (bump w).
Proof.
  intros [Hargs Hbelow Hlive]. split; simpl; [done| |done].
  intros p Hp. apply Hbelow. lia.
Qed.

Lemma consistent_with_os a os w : consistent w -> consistent (with_os a os w).
Proof. by intros [Hargs Hbelow Hlive]. Qed.

(** The world after [new] and the assignment of [__arguments_data_]. *)
Lemma consistent_allocated a vs w :
  consistent w ->
  consistent
    (with_arguments_data a (next_addr w)
       (record [allocate (next_addr w) vs]
          (store (next_addr w) vs (bump w)))).
Proof.
  intros [Hargs Hbelow Hlive]. split; simpl.
  - intros a' p. destruct (decide (a = a')) as [<-|Hne].
    + rewrite lookup_insert_eq. intros [= <-]. rewrite lookup_insert_eq.
      by eexists.
    + rewrite lookup_insert_ne by done. intros H.
      destruct (decide (next_addr w = p)) as [<-|Hp].
      * rewrite lookup_insert_eq. by eexists.
      * rewrite lookup_insert_ne by done. by apply (Hargs a').
  - intros p Hp. rewrite lookup_insert_ne by lia. apply Hbelow. lia.
  - intros p vs'. rewrite allocations_of_app. simpl.
    intros [Hin|Hin]%elem_of_app.
    + apply lookup_insert_is_Some'. right. by apply (Hlive p vs').
    + apply list_elem_of_singleton in Hin. injection Hin as -> ->.
      apply lookup_insert_is_Some'. by left.
Qed.

(** A write to a tuple that is on the heap. *)
Lemma consistent_store p vs w :
  is_Some (heap w !! p) -> consistent w -> consistent (store p vs w).
Proof.
  intros Hp [Hargs Hbelow Hlive]. split; simpl.
  - intros a q Ha. apply lookup_insert_is_Some'. right. by apply (Hargs a).
  - intros q Hq. rewrite lookup_insert_ne; [by apply Hbelow|].
    intros <-. rewrite (Hbelow p Hq) in Hp. by destruct Hp.
  - intros q vs' Hin. apply lookup_insert_is_Some'. right.
    by apply (Hlive q vs').
Qed.

(** *** One world after another *)

Lemma follows_refl w : follows w w [].
Proof. split; [by rewrite app_nil_r|done|done]. Qed.

Lemma follows_trans w1 w2 w3 evs1 evs2 :
  follows w1 w2 evs1 -> follows w2 w3 evs2 -> follows w1 w3 (evs1 ++ evs2).
Proof.
  intros [Ht1 Hn1 Ha1] [Ht2 Hn2 Ha2]. split.
  - by rewrite Ht2, Ht1, app_assoc.
  - lia.
  - intros a Ha. by apply Ha2, Ha1.
Qed.

Lemma follows_record evs w : follows w (record evs w) evs.
Proof. by split. Qed.

(** *** The backend's calls, one by one *)

Section WholeRun.

Variable be : backend.
Hypothesis provides : provides_work be.
Variable r : nat.

Lemma work_ready_follows os w w' evs :
  follows w w' evs -> work_ready os w -> work_ready os w'.
Proof.
  intros [_ _ Hargs]. unfold work_ready.
  destruct (as_work (aos_sender os)); [done|]. apply Hargs.
Qed.

(** One call of the backend, on an operation state whose shim was built
    by the layer for a receiver that completes well. *)
Lemma perform_well os a w :
  shim_set_value (aos_receiver os) = set_value_lambda ->
  shim_set_stopped (aos_receiver os) = set_stopped_lambda ->
  completes_well be r (cpp_recv (aos_receiver os)) ->
  consistent w ->
  work_ready os w ->
  exists w' evs,
    perform be (set_value be) set_stopped set_error os a w = returns tt w' /\
    follows w w' evs /\
    consistent w' /\
    started evs = connected evs /\
    forall c', c' ∈ signals_of r evs -> declared c'.
Proof.
  intros Hv Hs Hrcv Hw Hready.
  assert (Hcases : (exists i, a = run_index i) \/ is_completion a).
  { destruct a; [left; by eexists|by right..]. }
  destruct Hcases as [[i ->]|Ha].
  - simpl. unfold work_ready in Hready.
    destruct (as_work (aos_sender os)) as [|size fn].
    + exists w, []. split; [done|]. split; [apply follows_refl|].
      split; [done|]. split; [done|]. by intros c' ?%elem_of_nil.
    + destruct Hready as [p Hp].
      destruct (arguments_live w Hw _ _ Hp) as [vs Hvs].
      set (f := __fun_ (__snd_ (fn_state fn))).
      exists (store p (fn_writes f (as_long i) vs)
                (record [invoke (fn_id f) (as_long i) vs] w)),
        [invoke (fn_id f) (as_long i) vs].
      split.
      { unfold call_index_fn. destruct (fn_ptr fn).
        unfold bind, read_arguments_data, read_tuple, emit, write_tuple.
        rewrite Hp. simpl. by rewrite Hvs. }
      split; [by split|].
      split.
      { apply consistent_store; [simpl; by rewrite Hvs|].
        by apply consistent_record. }
      split; [done|]. by intros c' ?%elem_of_nil.
  - rewrite (perform_completion be os a Ha Hv Hs
               (provides_exception be provides)).
    destruct (Hrcv (delivered be (shim_set_error (aos_receiver os)) a) w Hw)
      as (w' & evs & Hrun & Hfollows & Hw' & Hbalance & Hsignals).
    exists w', evs. repeat (split; [done|]).
    intros c' Hc'. destruct (Hsignals c' Hc') as [Hd|[-> _]]; [done|].
    apply declared_delivered.
Qed.

Lemma perform_all_well os script :
  shim_set_value (aos_receiver os) = set_value_lambda ->
  shim_set_stopped (aos_receiver os) = set_stopped_lambda ->
  completes_well be r (cpp_recv (aos_receiver os)) ->
  forall w,
    consistent w ->
    work_ready os w ->
    exists w' evs,
      perform_all be (set_value be) set_stopped set_error os script w
      = returns tt w' /\
      follows w w' evs /\
      consistent w' /\
      started evs = connected evs /\
      forall c', c' ∈ signals_of r evs -> declared c'.
Proof.
  intros Hv Hs Hrcv.
  induction script as [|a script IH]; intros w Hw Hready.
  - exists w, []. split; [done|]. split; [apply follows_refl|].
    split; [done|]. split; [done|]. by intros c' ?%elem_of_nil.
  - destruct (perform_well os a w Hv Hs Hrcv Hw Hready)
      as (w1 & evs1 & Hrun1 & Hfollows1 & Hw1 & Hbalance1 & Hsignals1).
    destruct (IH w1 Hw1 (work_ready_follows os w w1 evs1 Hfollows1 Hready))
      as (w2 & evs2 & Hrun2 & Hfollows2 & Hw2 & Hbalance2 & Hsignals2).
    exists w2, (evs1 ++ evs2). split.
    { simpl. by rewrite (bind_returns _ _ _ _ _ Hrun1). }
    split; [by eapply follows_trans|]. split; [done|].
    split; [by rewrite started_app, connected_app, Hbalance1, Hbalance2|].
    intros c'. rewrite signals_of_app.
    intros [Hin|Hin]%elem_of_app; [by apply Hsignals1|by apply Hsignals2].
Qed.

(** *** Receivers *)

Lemma completes_well_user id : completes_well be r (user_receiver id).
Proof.
  intros c w Hw. exists (record [signal id c] w), [signal id c].
  split; [by destruct c|]. split; [apply follows_record|].
  split; [by apply consistent_record|]. split; [done|].
  intros c'. simpl. destruct (decide (id = r)); simpl.
  - intros ->%list_elem_of_singleton. right. split; [done|by eexists].
  - by intros ?%elem_of_nil.
Qed.

Lemma completes_well_intermediate a snd rcv :
  completes_well be r rcv ->
  completes_well be r
    (__bulk_intermediate_receiver
       {| state_addr := a; __snd_ := snd; __recv_ := rcv |}).
Proof.
  intros Hrcv c w Hw.
  set (st := {| state_addr := a; __snd_ := snd; __recv_ := rcv |}).
  assert (Hforward : forall c0, declared c0 ->
    exists w' evs,
      complete be rcv c0 w = returns tt w' /\ follows w w' evs /\
      consistent w' /\ started evs = connected evs /\
      forall c', c' ∈ signals_of r evs ->
                 declared c' \/ (c' = c /\ exists id,
                   __bulk_intermediate_receiver st = user_receiver id)).
  { intros c0 Hc0.
    destruct (Hrcv c0 w Hw) as (w' & evs & Hrun & Hf & Hw' & Hb & Hsig).
    exists w', evs. repeat (split; [done|]).
    intros c' Hc'. left. by destruct (Hsig c' Hc') as [?|[-> _]]. }
  destruct c as [vs| |e].
  2: { apply (Hforward stopped I). }
  2: { apply (Hforward (error e) I). }
  set (w1 := with_arguments_data a (next_addr w)
               (record [allocate (next_addr w) vs]
                  (store (next_addr w) vs (bump w)))).
  assert (Hw1 : consistent w1) by by apply consistent_allocated.
  assert (Hf1 : follows w w1 [allocate (next_addr w) vs]).
  { split; simpl; [done|lia|].
    intros a' Ha'. destruct (decide (a = a')) as [<-|Hne].
    - by rewrite lookup_insert_eq.
    - by rewrite lookup_insert_ne. }
  destruct (__scheduler_impl_ snd) as [impl|] eqn:Hsched.
  - set (evs0 := [backend_event (called_bulk impl (as_long (__size_ snd)));
                  backend_event (called_connect impl);
                  backend_event (called_start impl)]).
    set (w2 := record [backend_event (called_start impl)]
                 (with_os a (bulk_os impl st)
                    (record [backend_event (called_connect impl)]
                       (record [backend_event
                                  (called_bulk impl
                                     (as_long (__size_ snd)))] w1)))).
    assert (Hw2 : consistent w2).
    { apply consistent_record; [done|]. apply consistent_with_os.
      apply consistent_record; [done|]. by apply consistent_record. }
    assert (Hf2 : follows w1 w2 evs0).
    { split; simpl; [by rewrite <- !app_assoc|done|done]. }
    destruct (perform_all_well (bulk_os impl st)
                (on_start be (aos_sender (bulk_os impl st)))
                eq_refl eq_refl Hrcv w2 Hw2)
      as (w3 & evs3 & Hrun3 & Hf3 & Hw3 & Hb3 & Hsig3).
    { unfold work_ready. simpl. by rewrite lookup_insert_eq. }
    exists w3, ([allocate (next_addr w) vs] ++ evs0 ++ evs3). split.
    { simpl. rewrite Hsched.
      unfold new_tuple, fresh, emit, assign_arguments_data, scheduler_bulk,
        sender_connect, assign_os, os_start, emit, ret, bind. simpl.
      rewrite (provides_sender be provides),
        (provides_operation_state be provides). simpl.
      exact Hrun3. }
    split; [eapply follows_trans; [done|by eapply follows_trans]|].
    split; [done|]. split.
    { simpl. by rewrite Hb3. }
    intros c' Hc'. left. apply Hsig3. exact Hc'.
  - exists w1, [allocate (next_addr w) vs]. split.
    { simpl. by rewrite Hsched. }
    split; [done|]. split; [done|]. split; [done|].
    by intros c' ?%elem_of_nil.
Qed.

Lemma completes_well_all rcv : completes_well be r rcv.
Proof.
  induction rcv as [id|a snd rcv IH] using receiver_induction.
  - apply completes_well_user.
  - by apply completes_well_intermediate.
Qed.

(** *** Senders *)

(** Connecting, then starting what was connected, in a consistent world
    in which no state at a free address has its [__os_]. *)
Lemma connect_start_well snd :
  senders_present snd ->
  forall rcv w,
    consistent w ->
    os_unassigned w ->
    exists o w1 w2 evs,
      connect be snd rcv w = returns o w1 /\
      __os_ w1 = __os_ w /\
      (next_addr w <= next_addr w1)%nat /\
      start be o w1 = returns tt w2 /\
      trace w2 = trace w ++ evs /\
      consistent w2 /\
      started evs = connected evs /\
      forall c', c' ∈ signals_of r evs ->
                 declared c' \/
                 (~ system_made snd /\ exists id, rcv = user_receiver id).
Proof.
  induction snd as [vs| |e|s|sched prev n f IH] using sender_induction;
    intros Hpresent rcv w Hw Hos.
  - destruct (completes_well_all rcv (value vs) w Hw)
      as (w2 & evs & Hrun & [Ht _ _] & Hw2 & Hb & Hsig).
    exists (just_op (value vs) rcv), w, w2, evs.
    repeat (split; [done|]).
    intros c' Hc'. destruct (Hsig c' Hc') as [?|[_ ?]]; [by left|right].
    by split; [intros []|].
  - destruct (completes_well_all rcv stopped w Hw)
      as (w2 & evs & Hrun & [Ht _ _] & Hw2 & Hb & Hsig).
    exists (just_op stopped rcv), w, w2, evs.
    repeat (split; [done|]).
    intros c' Hc'. left. by destruct (Hsig c' Hc') as [?|[-> _]].
  - destruct (completes_well_all rcv (error e) w Hw)
      as (w2 & evs & Hrun & [Ht _ _] & Hw2 & Hb & Hsig).
    exists (just_op (error e) rcv), w, w2, evs.
    repeat (split; [done|]).
    intros c' Hc'. left. by destruct (Hsig c' Hc') as [?|[-> _]].
  - destruct s as [impl]. destruct Hpresent as [i Hi]. simpl in Hi.
    subst impl.
    set (snd0 := {| as_scheduler := i; as_work := single_work |}).
    set (os := {| aos_sender := snd0; aos_receiver := op_receiver_impl rcv |}).
    set (w1 := record [backend_event (called_connect i)] w).
    destruct (perform_all_well os (on_start be snd0) eq_refl eq_refl
                (completes_well_all rcv)
                (record [backend_event (called_start i)] w1))
      as (w2 & evs & Hrun & [Ht _ _] & Hw2 & Hb & Hsig).
    { apply consistent_record; [done|]. by apply consistent_record. }
    { done. }
    exists (__op {| __sender_impl_ := Some i |} rcv (Some os)), w1, w2,
      ([backend_event (called_connect i); backend_event (called_start i)]
       ++ evs).
    split.
    { simpl. unfold bind, sender_connect, bind, emit, ret. simpl.
      by rewrite (provides_operation_state be provides). }
    split; [done|]. split; [done|]. split; [exact Hrun|].
    split; [rewrite Ht; simpl; by rewrite <- !app_assoc|].
    split; [done|]. split; [simpl; by rewrite Hb|].
    intros c' Hc'. left. by apply Hsig.
  - simpl in Hpresent.
    set (s := {| __scheduler_impl_ := sched; __previous_ := prev;
                 __size_ := n; __fun_ := f |}).
    set (st := {| state_addr := next_addr w; __snd_ := s; __recv_ := rcv |}).
    destruct (IH Hpresent (__bulk_intermediate_receiver st) (bump w))
      as (o & w1 & w2 & evs & Hconnect & Hos1 & Hnext & Hstart & Ht & Hw2
          & Hb & Hsig).
    { by apply consistent_bump. }
    { intros a Ha. apply Hos. simpl in Ha. lia. }
    exists (__bulk_op st o), w1, w2, evs.
    split.
    { simpl. unfold bind, fresh. fold s st. by rewrite Hconnect. }
    split; [done|]. split; [simpl in Hnext; lia|]. split.
    { pose proof (Hos (next_addr w) (le_n _)) as Hnone.
      cbn [start]. unfold bind, read_os. cbn [state_addr st].
      rewrite Hos1. cbn [bump __os_]. rewrite Hnone. exact Hstart. }
    split; [done|]. split; [done|]. split; [done|].
    intros c' Hc'. left. by destruct (Hsig c' Hc') as [?|[_ [id ?]]].
Qed.

(** The run of [snd] with the receiver [rcv], from the initial world. *)
Lemma run_well snd rcv :
  senders_present snd ->
  exists w,
    run be snd rcv = returns tt w /\
    consistent w /\
    started (trace w) = connected (trace w) /\
    forall c', c' ∈ signals_of r (trace w) ->
               declared c' \/
               (~ system_made snd /\ exists id, rcv = user_receiver id).
Proof.
  intros Hpresent.
  destruct (connect_start_well snd Hpresent rcv initial_world
              consistent_initial)
    as (o & w1 & w2 & evs & Hconnect & _ & _ & Hstart & Ht & Hw2 & Hb & Hsig).
  { intros a _. apply lookup_empty. }
  simpl in Ht. subst evs. exists w2.
  split; [unfold run, bind; by rewrite Hconnect|done].
Qed.

End WholeRun.

(** X5: the layer dereferences no null pointer of its own making.  Over a
    backend that returns its work objects, whatever it calls when started
    and in whatever order, connecting a sender whose backend senders are
    there to any receiver, and starting it, returns: bulk stages in bulk
    stages, a bulk stage with no scheduler, repeated or missing completions
    of the backend included. *)
Theorem run_never_undefined be snd rcv :
  provides_work be ->
  senders_present snd ->
  exists w, run be snd rcv = returns tt w.
Proof.
  intros provides Hpresent.
  destruct (run_well be provides 0%nat snd rcv Hpresent) as (w & Hrun & _).
  by exists w.
Qed.

Lemma run_never_undefined_witness :
  exists w,
    run inline_backend (bulk_after 1 (bulk_after 1 (scheduled_on 2) 2 (recorder 5)) 3
       (incrementer 0))
      (user_receiver 9) = returns tt w.
Proof.
  apply (run_never_undefined inline_backend
           (bulk_after 1 (bulk_after 1 (scheduled_on 2) 2 (recorder 5)) 3
       (incrementer 0))
           (user_receiver 9)).
  - apply inline_backend_provides_work.
  - simpl. by eexists.
Defined.

(** X6: the receiver of a [system_sender] or of a bulk sender is sent
    declared signals only, [set_value()] with no value, [set_stopped()] or
    [set_error(e)], whatever the backend calls: the values the prior stage
    completed with are not passed on by the bulk stage. *)
Theorem signals_are_declared be snd r :
  provides_work be ->
  senders_present snd ->
  system_made snd ->
  exists w,
    run be snd (user_receiver r) = returns tt w /\
    forall c, c ∈ signals_of r (trace w) -> declared c.
Proof.
  intros provides Hpresent Hmade.
  destruct (run_well be provides r snd (user_receiver r) Hpresent)
    as (w & Hrun & _ & _ & Hsig).
  exists w. split; [done|].
  intros c Hc. by destruct (Hsig c Hc) as [?|[? _]].
Qed.

Lemma signals_are_declared_witness :
  exists w,
    run inline_backend (bulk_after 1 (just [7; 8]) 3 (incrementer 0)) (user_receiver 9)
    = returns tt w /\
    forall c, c ∈ signals_of 9 (trace w) -> declared c.
Proof.
  apply (signals_are_declared inline_backend (bulk_after 1 (just [7; 8]) 3 (incrementer 0))
           9).
  - apply inline_backend_provides_work.
  - exact I.
  - exact I.
Defined.





(** ** A scheduler that returns no sender *)

(** X9: when [schedule()] of the backend returns [nullptr], [schedule]
    returns a sender all the same, and it is [connect] that dereferences
    the null pointer (line 163), before any operation state exists to be
    started. *)
Theorem null_sender_surfaces_at_connect be impl rcv w :
  makes_sender be {| as_scheduler := impl; as_work := single_work |} = false ->
  schedule be {| __scheduler_interface_ := Some impl |} w
  = returns {| __sender_impl_ := None |}
      (record [backend_event (called_schedule impl)] w) /\
  (s <- schedule be {| __scheduler_interface_ := Some impl |} ;;
   connect be (schedule_sender s) rcv) w = undefined.
Proof.
  intros Hnull. split.
  - unfold schedule, scheduler_schedule, bind, emit, ret. simpl.
    by rewrite Hnull.
  - unfold schedule, scheduler_schedule, bind, emit, ret. simpl.
    by rewrite Hnull.
Qed.

Lemma null_sender_surfaces_at_connect_witness :
  schedule senderless_backend {| __scheduler_interface_ := Some 1%nat |}
    initial_world
  = returns {| __sender_impl_ := None |}
      (record [backend_event (called_schedule 1)] initial_world) /\
  (s <- schedule senderless_backend
          {| __scheduler_interface_ := Some 1%nat |} ;;
   connect senderless_backend (schedule_sender s) (user_receiver 9))
    initial_world = undefined.
Proof.
  apply (null_sender_surfaces_at_connect senderless_backend 1
           (user_receiver 9) initial_world).
  reflexivity.
Defined.

